(** * diff.py: one-sided differences of the line sets of two files

    A shallow embedding of [src/diff.py].  The script reads the text files
    [out1] and [out2], turns each into the set of its lines
    ([set(file.read().splitlines())]) and prints the two one-sided set
    differences.

    - a Python [str] is a list of Unicode code points ([N]);
    - a Python [set] of strings is a [gset str];
    - the filesystem and standard output are threaded through a small
      state-and-exception monad. *)

From stdpp Require Import gmap strings list fin_maps.

(** ** Strings *)

(** A character is a Unicode code point, a string a sequence of them. *)
Abbreviation char := N (only parsing).
Abbreviation str := (list N) (only parsing).
Abbreviation lineset := (gset (list N)) (only parsing).

Definition LF  : char := 10%N.    (* \n *)
Definition VT  : char := 11%N.    (* \v, \x0b *)
Definition FF  : char := 12%N.    (* \f, \x0c *)
Definition CR  : char := 13%N.    (* \r *)
Definition FS  : char := 28%N.    (* \x1c *)
Definition GS  : char := 29%N.    (* \x1d *)
Definition RS  : char := 30%N.    (* \x1e *)
Definition NEL : char := 133%N.   (* \x85 *)
Definition LS  : char := 8232%N.  (* U+2028, line separator *)
Definition PS  : char := 8233%N.  (* U+2029, paragraph separator *)

(** The code points of an ASCII literal. *)
Definition lit (s : string) : str :=
  map Ascii.N_of_ascii (String.list_ascii_of_string s).

(** ** [str.splitlines] *)

(** The characters [str.splitlines] breaks a string at. *)
Definition is_linebreak (c : char) : bool :=
  (c =? LF)%N || (c =? VT)%N || (c =? FF)%N || (c =? CR)%N ||
  (c =? FS)%N || (c =? GS)%N || (c =? RS)%N || (c =? NEL)%N ||
  (c =? LS)%N || (c =? PS)%N.

(** The scanning loop of [str.splitlines] (without [keepends]): [cur] is the
    line collected since the last break, [after_cr] tells that the previous
    character was a [\r], whose following [\n] belongs to the same break.
    A line is emitted at every break; what is left at the end of the string
    is emitted only when it is not empty. *)
Fixpoint splitlines_from (after_cr : bool) (cur : str) (s : str) : list str :=
  match s with
  | [] => match cur with [] => [] | _ => [cur] end
  | c :: rest =>
      if after_cr && (c =? LF)%N then splitlines_from false cur rest
      else if is_linebreak c then cur :: splitlines_from (c =? CR)%N [] rest
      else splitlines_from false (cur ++ [c]) rest
  end.

Definition splitlines (s : str) : list str := splitlines_from false [] s.

(** ** Reading in text mode *)

(** [open(path)] opens in text mode with universal newlines: on input,
    [\r\n] and a lone [\r] are translated to [\n].  [pending_cr] tells that
    the previous character was a [\r] (already translated). *)
Fixpoint translate_newlines (pending_cr : bool) (s : str) : str :=
  match s with
  | [] => []
  | c :: rest =>
      if pending_cr && (c =? LF)%N then translate_newlines false rest
      else if (c =? CR)%N then LF :: translate_newlines true rest
      else c :: translate_newlines false rest
  end.

Definition universal_newlines (s : str) : str := translate_newlines false s.

(** ** The world: files and standard output *)

(** A file of the working directory: text with its decoded content, or a
    file that exists but whose content cannot be read as text. *)
Inductive file :=
  | Text (content : str)
  | Unreadable.

(** What [print] receives. *)
Inductive pyobj :=
  | PStr (s : string)
  | PSet (s : lineset).

(** One [print] call writes its arguments separated by spaces and ends the
    line; standard output is the sequence of lines written so far, each kept
    as the arguments of its [print]. *)
Record world := World {
  fs : gmap string file;
  stdout : list (list pyobj)
}.

(** The exception raised when a file cannot be opened or read. *)
Inductive exn :=
  | FileAccessError (path : string).

Inductive result (A : Type) :=
  | Ok (a : A)
  | Raise (e : exn).
Arguments Ok {A} a.
Arguments Raise {A} e.

(** ** The monad of the script *)

Definition M (A : Type) : Type := world → result A * world.

Definition ret {A} (a : A) : M A := λ w, (Ok a, w).

Definition raise {A} (e : exn) : M A := λ w, (Raise e, w).

Definition bind {A B} (m : M A) (k : A → M B) : M B :=
  λ w, match m w with
       | (Ok a, w') => k a w'
       | (Raise e, w') => (Raise e, w')
       end.

(** The monad is used through stdpp's [x ← m; k] and [m ;; k]. *)
#[global] Instance M_ret : MRet M := @ret.
#[global] Instance M_bind : MBind M := λ A B k m, bind m k.

(** A handle on an open file: its path and the file itself. *)
Record handle := Handle { h_path : string; h_file : file }.

(** [open(path)]: fails when there is no such file. *)
Definition open (path : string) : M handle :=
  λ w, match fs w !! path with
       | Some f => (Ok (Handle path f), w)
       | None => (Raise (FileAccessError path), w)
       end.

(** [file.read()]: the whole content, newlines translated. *)
Definition read (h : handle) : M str :=
  match h_file h with
  | Text content => ret (universal_newlines content)
  | Unreadable => raise (FileAccessError (h_path h))
  end.

(** [with open(path) as file: body]: the handle is released when the body
    is left, normally or by an exception; the world keeps no trace of it. *)
Definition with_open {A} (path : string) (body : handle → M A) : M A :=
  file ← open path; body file.

(** [print(a, b, ...)] *)
Definition print (args : list pyobj) : M unit :=
  λ w, (Ok tt, World (fs w) (stdout w ++ [args])).

(** ** Sets *)

(** [set(lines)] *)
Definition set_ (lines : list str) : lineset := list_to_set lines.

(** [a.symmetric_difference(b)] *)
Definition symmetric_difference (a b : lineset) : lineset := (a ∖ b) ∪ (b ∖ a).

(** ** The script *)

Definition main : M unit :=
  out1set ← with_open "out1" (λ file,
              content ← read file; mret (set_ (splitlines content)));
  out2set ← with_open "out2" (λ file,
              content ← read file; mret (set_ (splitlines content)));
  diff ← mret (symmetric_difference out1set out2set);
  print [PStr "out1 - out2:"; PSet (out1set ∖ out2set)] ;;
  print [PStr "out2 - out1:"; PSet (out2set ∖ out1set)].

(** The script with the computation of [diff] left out, as the specification
    says a reimplementation may do. *)
Definition main_without_diff : M unit :=
  out1set ← with_open "out1" (λ file,
              content ← read file; mret (set_ (splitlines content)));
  out2set ← with_open "out2" (λ file,
              content ← read file; mret (set_ (splitlines content)));
  print [PStr "out1 - out2:"; PSet (out1set ∖ out2set)] ;;
  print [PStr "out2 - out1:"; PSet (out2set ∖ out1set)].

(** ** Derived notions used in the statements *)

(** The lines of a file with the given content, as the script obtains them. *)
Definition file_lines (content : str) : list str :=
  splitlines (universal_newlines content).

(** The LineSet of a file with the given content. *)
Definition LineSet (content : str) : lineset := set_ (file_lines content).

(** The two lines the script prints for line sets [A] and [B]. *)
Definition report (A B : lineset) : list (list pyobj) :=
  [ [PStr "out1 - out2:"; PSet (A ∖ B)];
    [PStr "out2 - out1:"; PSet (B ∖ A)] ].

(** A file that can be opened and read. *)
Definition readable (w : world) (path : string) : bool :=
  match fs w !! path with
  | Some (Text _) => true
  | _ => false
  end.

(** The script run in a directory that holds just the two files, with
    nothing printed yet, and what it prints there. *)
Definition run (c1 c2 : str) : result unit * world :=
  main (World {[ "out1" := Text c1; "out2" := Text c2 ]} []).

Definition output (c1 c2 : str) : list (list pyobj) := stdout (run c1 c2).2.

(** How often a line occurs in a list of lines. *)
Definition occurrences (l : str) (ls : list str) : nat :=
  length (filter (λ x, x = l) ls).

(** The line terminators of [str.splitlines] that are not newlines of any
    platform: everything but [\n], [\r] and [\r\n]. *)
Definition is_other_break (c : char) : bool :=
  is_linebreak c && negb (c =? LF)%N && negb (c =? CR)%N.

(** Newline-delimited records, following the specification's wording: the
    content read in text mode is cut at every newline and nowhere else; a
    final newline ends the last record and opens no further one. *)
Fixpoint records_from (cur : str) (s : str) : list str :=
  match s with
  | [] => match cur with [] => [] | _ => [cur] end
  | c :: rest =>
      if (c =? LF)%N then cur :: records_from [] rest
      else records_from (cur ++ [c]) rest
  end.

Definition newline_records (content : str) : list str :=
  records_from [] (universal_newlines content).

(** The content ends inside a line that a newline appended to it would only
    terminate: its last character is no terminator, or it is a [\r], which
    an appended [\n] completes to [\r\n]. *)
Definition ends_open (content : str) : bool :=
  match last content with
  | Some c => negb (is_linebreak c) || (c =? CR)%N
  | None => false
  end.

(** ** Sample inputs *)

(** The files of the specification's third scenario, [a\nb\nc] and
    [b\nc\nd], in a directory that holds a third file, after an earlier
    line went to standard output. *)
Definition abc : str := lit "a" ++ [LF] ++ lit "b" ++ [LF] ++ lit "c".
Definition bcd : str := lit "b" ++ [LF] ++ lit "c" ++ [LF] ++ lit "d".

Definition ab : str := lit "a" ++ [LF] ++ lit "b".
Definition cd : str := lit "c" ++ [LF] ++ lit "d".

Definition overlap_world : world :=
  World {[ "out1" := Text abc; "out2" := Text bcd; "notes" := Unreadable ]}
        [[PStr "earlier"]].

(** A file in which the line [b] stands three times, and the same file with
    the repetitions taken out. *)
Definition abbbc : str :=
  lit "a" ++ [LF] ++ lit "b" ++ [LF] ++ lit "b" ++ [LF] ++ lit "b" ++ [LF]
  ++ lit "c" ++ [LF].
Definition abc_nl : str := lit "a" ++ [LF] ++ lit "b" ++ [LF] ++ lit "c" ++ [LF].

(** A directory in which [out1] is there and [out2] is not (the fourth
    scenario of the specification). *)
Definition missing_out2_world : world :=
  World {[ "out1" := Text abc ]} [[PStr "earlier"]].

(** A form feed between two words, and no newline at all. *)
Definition form_feed : str := lit "a" ++ [FF] ++ lit "b".

(** ** Notions used in the further properties *)

(** A file written line by line: each line of [ls] followed by the
    terminator [term]. *)
Definition write_lines (term : str) (ls : list str) : str :=
  concat (map (λ l, l ++ term) ls).

(** What a writer may end a line with: one terminator character, or
    [\r\n]. *)
Definition is_terminator (term : str) : bool :=
  match term with
  | [c] => is_linebreak c
  | [c1; c2] => (c1 =? CR)%N && (c2 =? LF)%N
  | _ => false
  end.

(** The lines [a], [b], [c] ended the Windows way, and the same lines in
    another order ended the Unix way. *)
Definition abc_crlf : str :=
  write_lines [CR; LF] [lit "a"; lit "b"; lit "c"].
Definition cab_nl : str := write_lines [LF] [lit "c"; lit "a"; lit "b"].

(** * Properties *)

(** ** Running the script *)

Lemma main_ok (w : world) (c1 c2 : str) :
  fs w !! "out1" = Some (Text c1) →
  fs w !! "out2" = Some (Text c2) →
  main w = (Ok tt, World (fs w) (stdout w ++ report (LineSet c1) (LineSet c2))).
Proof.
  intros H1 H2.
  unfold main, with_open, mbind, M_bind, bind, open.
  rewrite H1; simpl. rewrite H2; simpl.
  unfold print; simpl. by rewrite <- app_assoc.
Qed.

(** ** Line splitting *)

Section SplitLines.

Implicit Types (s cur : list N) (b : bool) (c : N).

Lemma is_linebreak_LF : is_linebreak LF = true.
Proof. reflexivity. Qed.

Lemma is_linebreak_CR : is_linebreak CR = true.
Proof. reflexivity. Qed.

Lemma not_linebreak_neq c :
  is_linebreak c = false → (c =? LF)%N = false ∧ (c =? CR)%N = false.
Proof.
  unfold is_linebreak. intros H.
  repeat (apply orb_false_iff in H as [H ?]). done.
Qed.

(** One step of the scanning loop, by the kind of the character met. *)
Lemma splitlines_from_skip cur rest :
  splitlines_from true cur (LF :: rest) = splitlines_from false cur rest.
Proof. reflexivity. Qed.

Lemma splitlines_from_break b cur c rest :
  b && (c =? LF)%N = false → is_linebreak c = true →
  splitlines_from b cur (c :: rest)
  = cur :: splitlines_from (c =? CR)%N [] rest.
Proof. intros Hb Hc. simpl. by rewrite Hb, Hc. Qed.

Lemma splitlines_from_char b cur c rest :
  is_linebreak c = false →
  splitlines_from b cur (c :: rest) = splitlines_from false (cur ++ [c]) rest.
Proof.
  intros Hc. destruct (not_linebreak_neq c Hc) as [Hlf _].
  simpl. by rewrite Hlf, andb_false_r, Hc.
Qed.

(** The three cases a character falls in. *)
Lemma char_cases b c :
  (b = true ∧ c = LF)
  ∨ (b && (c =? LF)%N = false ∧ is_linebreak c = true)
  ∨ is_linebreak c = false.
Proof.
  destruct (is_linebreak c) eqn:Hc; [|by right; right].
  destruct b; [|by right; left].
  destruct (c =? LF)%N eqn:Hlf; [|by right; left].
  left. by apply N.eqb_eq in Hlf.
Qed.

(** Universal newlines change nothing for [splitlines]: it treats
    [\r], [\r\n] and [\n] alike. *)
Lemma splitlines_from_translate s : ∀ b cur,
  splitlines_from false cur (translate_newlines b s) = splitlines_from b cur s.
Proof.
  induction s as [|c rest IH]; intros b cur; [done|].
  destruct (char_cases b c) as [[-> ->]|[[Hb Hc]|Hc]].
  - simpl. apply IH.
  - rewrite (splitlines_from_break b cur c rest Hb Hc).
    simpl. rewrite Hb.
    destruct (c =? CR)%N eqn:Hcr.
    + rewrite (splitlines_from_break false cur LF _ eq_refl eq_refl).
      f_equal. apply IH.
    + rewrite (splitlines_from_break false cur c _ eq_refl Hc), Hcr.
      f_equal. apply IH.
  - rewrite (splitlines_from_char b cur c rest Hc).
    destruct (not_linebreak_neq c Hc) as [Hlf Hcr].
    simpl translate_newlines. rewrite Hlf, andb_false_r, Hcr.
    rewrite (splitlines_from_char false cur c _ Hc). apply IH.
Qed.

Lemma file_lines_splitlines s : file_lines s = splitlines s.
Proof. apply splitlines_from_translate. Qed.

(** *** A newline appended to the content *)

(** After a character that is no terminator, or after a [\r], the appended
    newline only ends the line that was open. *)
Lemma splitlines_from_snoc_LF_open s : ∀ b cur c,
  last s = Some c → is_linebreak c = false ∨ c = CR →
  splitlines_from b cur (s ++ [LF]) = splitlines_from b cur s.
Proof.
  induction s as [|c0 rest IH]; intros b cur c Hlast Hc; [done|].
  destruct rest as [|c1 rest].
  - injection Hlast as ->. cbn [app]. destruct Hc as [Hc| ->].
    + rewrite !(splitlines_from_char _ _ c) by done.
      simpl. by destruct cur.
    + by destruct b.
  - change (last (c0 :: c1 :: rest)) with (last (c1 :: rest)) in Hlast.
    change ((c0 :: c1 :: rest) ++ [LF]) with (c0 :: ((c1 :: rest) ++ [LF])).
    destruct (char_cases b c0) as [[-> ->]|[[Hb Hc0]|Hc0]].
    + rewrite !splitlines_from_skip. by eapply IH.
    + rewrite !(splitlines_from_break b cur c0) by done.
      f_equal. by eapply IH.
    + rewrite !(splitlines_from_char b cur c0) by done. by eapply IH.
Qed.

(** After a terminator other than [\r] the appended newline ends an empty
    line. *)
Lemma splitlines_from_snoc_LF_closed s : ∀ b cur c,
  (b = true → cur = []) →
  last s = Some c → is_linebreak c = true → c ≠ CR →
  splitlines_from b cur (s ++ [LF]) = splitlines_from b cur s ++ [[]].
Proof.
  induction s as [|c0 rest IH]; intros b cur c Hinv Hlast Hc Hcr; [done|].
  destruct rest as [|c1 rest].
  - injection Hlast as ->.
    destruct (char_cases b c) as [[-> ->]|[[Hb _]|Hc']]; [| |congruence].
    + rewrite (Hinv eq_refl). reflexivity.
    + cbn [app].
      rewrite !(splitlines_from_break b cur c) by done.
      apply N.eqb_neq in Hcr. by rewrite Hcr.
  - change (last (c0 :: c1 :: rest)) with (last (c1 :: rest)) in Hlast.
    change ((c0 :: c1 :: rest) ++ [LF]) with (c0 :: ((c1 :: rest) ++ [LF])).
    destruct (char_cases b c0) as [[-> ->]|[[Hb Hc0]|Hc0]].
    + rewrite !splitlines_from_skip. by eapply IH.
    + rewrite !(splitlines_from_break b cur c0) by done.
      simpl. f_equal. by eapply IH.
    + rewrite !(splitlines_from_char b cur c0) by done. by eapply IH.
Qed.

(** *** Lines hold no terminator *)

Lemma splitlines_from_no_break s : ∀ b cur,
  Forall (λ c, is_linebreak c = false) cur →
  Forall (Forall (λ c, is_linebreak c = false)) (splitlines_from b cur s).
Proof.
  induction s as [|c rest IH]; intros b cur Hcur.
  - simpl. destruct cur; [constructor|]. by apply Forall_singleton.
  - destruct (char_cases b c) as [[-> ->]|[[Hb Hc]|Hc]].
    + rewrite splitlines_from_skip. by apply IH.
    + rewrite (splitlines_from_break b cur c) by done.
      constructor; [done|]. by apply IH.
    + rewrite (splitlines_from_char b cur c) by done.
      apply IH, Forall_app. split; [done|]. by apply Forall_singleton.
Qed.

(** *** Contents whose only terminators are newlines *)

Lemma splitlines_from_records s : ∀ b cur,
  Forall (λ c, is_other_break c = false) s →
  splitlines_from b cur s = records_from cur (translate_newlines b s).
Proof.
  induction s as [|c rest IH]; intros b cur Hs; [done|].
  apply Forall_cons in Hs as [Hc0 Hrest].
  destruct (char_cases b c) as [[-> ->]|[[Hb Hc]|Hc]].
  - rewrite splitlines_from_skip. simpl. by apply IH.
  - rewrite (splitlines_from_break b cur c) by done.
    simpl translate_newlines. rewrite Hb.
    destruct (c =? CR)%N eqn:Hcr; simpl.
    + f_equal. by apply IH.
    + unfold is_other_break in Hc0. rewrite Hc, Hcr in Hc0.
      destruct (c =? LF)%N; [|done]. f_equal. by apply IH.
  - rewrite (splitlines_from_char b cur c) by done.
    destruct (not_linebreak_neq c Hc) as [Hlf Hcr].
    simpl. rewrite Hlf, andb_false_r, Hcr. simpl. rewrite Hlf. by apply IH.
Qed.

(** *** The first line *)

(** Scanning the characters of a line collects them. *)
Lemma splitlines_from_line (l : list N) : ∀ b cur rest,
  Forall (λ c, is_linebreak c = false) l →
  splitlines_from b cur (l ++ rest)
  = splitlines_from (b && bool_decide (l = [])) (cur ++ l) rest.
Proof.
  induction l as [|c l IH]; intros b cur rest Hl.
  - cbn [app]. by rewrite app_nil_r, andb_true_r.
  - apply Forall_cons in Hl as [Hc Hl]. cbn [app].
    rewrite (splitlines_from_char b cur c) by done.
    rewrite IH by done. rewrite andb_false_r. simpl.
    by rewrite <- app_assoc.
Qed.

(** After a [\r], only a [\n] is treated specially. *)
Lemma splitlines_from_after_cr cur s :
  head s ≠ Some LF →
  splitlines_from true cur s = splitlines_from false cur s.
Proof.
  destruct s as [|c rest]; [done|]. simpl. intros Hc.
  destruct (c =? LF)%N eqn:Hlf; [|done].
  apply N.eqb_eq in Hlf. by subst.
Qed.

(** The first line ends at the first terminator, whichever it is. *)
Lemma splitlines_first_line (l : list N) t rest :
  Forall (λ c, is_linebreak c = false) l →
  is_linebreak t = true →
  splitlines (l ++ t :: rest) = l :: splitlines_from (t =? CR)%N [] rest.
Proof.
  intros Hl Ht. unfold splitlines.
  rewrite (splitlines_from_line l) by done. cbn [andb app].
  by rewrite (splitlines_from_break false l t).
Qed.

(** *** There are no more lines than terminators, and one *)

Lemma splitlines_from_length s : ∀ b cur,
  length (splitlines_from b cur s)
  ≤ S (length (filter (λ c, is_linebreak c = true) s)).
Proof.
  induction s as [|c rest IH]; intros b cur.
  - simpl. destruct cur; simpl; lia.
  - destruct (char_cases b c) as [[-> ->]|[[Hb Hc]|Hc]].
    + rewrite splitlines_from_skip, filter_cons_True by done.
      specialize (IH false cur). simpl. lia.
    + rewrite (splitlines_from_break b cur c), filter_cons_True by done.
      specialize (IH (c =? CR)%N []). simpl. lia.
    + rewrite (splitlines_from_char b cur c), filter_cons_False by congruence.
      apply IH.
Qed.

End SplitLines.

(** ** Sets of lines *)

(** Set equalities are proved member by member. *)
Ltac unfold_membership :=
  rewrite ?elem_of_union, ?elem_of_intersection, ?elem_of_difference,
    ?elem_of_empty.
Ltac by_membership :=
  apply set_eq; intros ?; unfold_membership; tauto.

Section LineSets.

Implicit Types (A B : gset (list N)) (l : list N) (ls : list (list N)).

Lemma elem_of_LineSet (c : list N) l : l ∈ LineSet c ↔ l ∈ file_lines c.
Proof. unfold LineSet, set_. apply elem_of_list_to_set. Qed.

Lemma differences_partition A B :
  (A ∖ B) ∪ (B ∖ A) ∪ (A ∩ B) = A ∪ B.
Proof.
  apply set_eq. intros x. unfold_membership.
  destruct (decide (x ∈ A)), (decide (x ∈ B)); tauto.
Qed.

Lemma differences_disjoint_sets A B : (A ∖ B) ∩ (B ∖ A) = ∅.
Proof. by_membership. Qed.

Lemma difference_shared_disjoint A B : (A ∖ B) ∩ (A ∩ B) = ∅.
Proof. by_membership. Qed.

Lemma difference_shared_disjoint' A B : (B ∖ A) ∩ (A ∩ B) = ∅.
Proof. by_membership. Qed.

Lemma empty_difference A : ∅ ∖ A = ∅.
Proof. by_membership. Qed.

Lemma difference_empty A : A ∖ ∅ = A.
Proof. by_membership. Qed.

Lemma occurrences_cons x l ls :
  occurrences l (x :: ls)
  = (if decide (x = l) then 1 else 0) + occurrences l ls.
Proof.
  unfold occurrences. rewrite filter_cons. by destruct (decide (x = l)).
Qed.

Lemma occurrences_0 l ls : l ∉ ls → occurrences l ls = 0.
Proof.
  induction ls as [|x ls IH]; [done|].
  rewrite not_elem_of_cons, occurrences_cons. intros [Hne Hl].
  rewrite decide_False by done. by rewrite IH.
Qed.

Lemma occurrences_pos l ls : 0 < occurrences l ls → l ∈ ls.
Proof.
  intros H. destruct (decide (l ∈ ls)) as [|Hn]; [done|].
  rewrite (occurrences_0 _ _ Hn) in H. lia.
Qed.

(** In a list without repetition a member occurs once. *)
Lemma occurrences_NoDup l ls : NoDup ls → l ∈ ls → occurrences l ls = 1.
Proof.
  induction 1 as [|x ls Hx Hnd IH]; [by rewrite elem_of_nil|].
  rewrite occurrences_cons, elem_of_cons.
  destruct (decide (x = l)) as [->|Hne].
  - intros _. by rewrite occurrences_0.
  - intros [->|Hl]; [done|]. by rewrite IH.
Qed.

(** Lists of lines that agree apart from how often [l] occurs, and in
    which [l] does occur, have the same members. *)
Lemma same_lines_apart_from l ls ls' :
  l ∈ ls → l ∈ ls' →
  filter (λ x, x ≠ l) ls = filter (λ x, x ≠ l) ls' →
  ∀ x, x ∈ ls ↔ x ∈ ls'.
Proof.
  intros Hl Hl' Hf x. destruct (decide (x = l)) as [->|Hne]; [done|].
  assert (∀ k : list (list N), x ∈ k ↔ x ∈ filter (λ y, y ≠ l) k) as Hk.
  { intros k. rewrite list_elem_of_filter. tauto. }
  by rewrite (Hk ls), (Hk ls'), Hf.
Qed.

End LineSets.

(** ** What the script prints *)

Lemma output_report (c1 c2 : list N) :
  output c1 c2 = report (LineSet c1) (LineSet c2).
Proof.
  unfold output, run. by rewrite (main_ok _ c1 c2).
Qed.

Lemma main_no_out1 (w : world) :
  readable w "out1" = false → main w = (Raise (FileAccessError "out1"), w).
Proof.
  unfold readable, main, with_open, mbind, M_bind, bind, open.
  destruct (fs w !! "out1") as [[c|]|]; done.
Qed.

Lemma main_no_out2 (w : world) :
  readable w "out1" = true → readable w "out2" = false →
  main w = (Raise (FileAccessError "out2"), w).
Proof.
  unfold readable, main, with_open, mbind, M_bind, bind, open.
  destruct (fs w !! "out1") as [[c1|]|]; [|done..]. simpl.
  destruct (fs w !! "out2") as [[c2|]|]; done.
Qed.

(** ** The scenarios of the specification *)

Example identical_files :
  output abc abc = [ [PStr "out1 - out2:"; PSet ∅];
                     [PStr "out2 - out1:"; PSet ∅] ].
Proof. vm_compute. reflexivity. Qed.

Example disjoint_files :
  output ab cd = [ [PStr "out1 - out2:"; PSet {[ lit "a"; lit "b" ]}];
                   [PStr "out2 - out1:"; PSet {[ lit "c"; lit "d" ]}] ].
Proof. vm_compute. reflexivity. Qed.

Example partial_overlap :
  output abc bcd = [ [PStr "out1 - out2:"; PSet {[ lit "a" ]}];
                     [PStr "out2 - out1:"; PSet {[ lit "d" ]}] ].
Proof. vm_compute. reflexivity. Qed.

(** [str.splitlines] on the terminators it knows. *)
Example splitlines_terminators :
  splitlines (lit "a" ++ [CR; LF] ++ lit "b" ++ [CR] ++ lit "c" ++ [LF; LF]
              ++ lit "d" ++ [VT] ++ lit "e" ++ [NEL] ++ lit "f" ++ [LS])
  = [lit "a"; lit "b"; lit "c"; []; lit "d"; lit "e"; lit "f"].
Proof. reflexivity. Qed.

(** * The claims *)

(** ** C1: the two printed lines *)

(** C1. When both files can be read, the script prints exactly two lines and
    nothing else: the label [out1 - out2:] with the set of the lines of
    [out1] that are not lines of [out2], then the label [out2 - out1:] with
    the set of the lines of [out2] that are not lines of [out1]. *)
Theorem main_prints_differences (w : world) (c1 c2 : list N) :
  fs w !! "out1" = Some (Text c1) →
  fs w !! "out2" = Some (Text c2) →
  ∃ onlyA onlyB : gset (list N),
    main w = (Ok tt, World (fs w) (stdout w ++
               [ [PStr "out1 - out2:"; PSet onlyA];
                 [PStr "out2 - out1:"; PSet onlyB] ]))
    ∧ onlyA = LineSet c1 ∖ LineSet c2
    ∧ onlyB = LineSet c2 ∖ LineSet c1
    ∧ (∀ l, l ∈ onlyA ↔ l ∈ file_lines c1 ∧ l ∉ file_lines c2)
    ∧ (∀ l, l ∈ onlyB ↔ l ∈ file_lines c2 ∧ l ∉ file_lines c1).
Proof.
  intros H1 H2.
  exists (LineSet c1 ∖ LineSet c2), (LineSet c2 ∖ LineSet c1).
  split; [by apply main_ok|]. do 2 (split; [done|]).
  split; intros l; by rewrite elem_of_difference, !elem_of_LineSet.
Qed.

(** The third scenario of the specification. *)
Lemma main_prints_differences_witness :
  ∃ onlyA onlyB : gset (list N),
    main overlap_world
    = (Ok tt,
       World (fs overlap_world)
             ([[PStr "earlier"]] ++
              [ [PStr "out1 - out2:"; PSet onlyA];
                [PStr "out2 - out1:"; PSet onlyB] ]))
    ∧ onlyA = {[ lit "a" ]} ∧ onlyB = {[ lit "d" ]}.
Proof.
  destruct (main_prints_differences overlap_world abc bcd)
    as (onlyA & onlyB & Hmain & HA & HB & _); [reflexivity..|].
  exists onlyA, onlyB. split; [exact Hmain|].
  split; [rewrite HA|rewrite HB]; vm_compute; reflexivity.
Defined.

(** ** C2: the three parts cover both files *)

(** C2. The set printed for [out1], the set printed for [out2] and the set
    of shared lines together are all the lines of the two files, and no line
    is in two of the three. *)
Theorem differences_cover (c1 c2 : list N) :
  ∃ onlyA onlyB : gset (list N),
    output c1 c2 = [ [PStr "out1 - out2:"; PSet onlyA];
                     [PStr "out2 - out1:"; PSet onlyB] ]
    ∧ onlyA ∪ onlyB ∪ (LineSet c1 ∩ LineSet c2) = LineSet c1 ∪ LineSet c2
    ∧ onlyA ∩ onlyB = ∅
    ∧ onlyA ∩ (LineSet c1 ∩ LineSet c2) = ∅
    ∧ onlyB ∩ (LineSet c1 ∩ LineSet c2) = ∅.
Proof.
  exists (LineSet c1 ∖ LineSet c2), (LineSet c2 ∖ LineSet c1).
  split; [apply output_report|].
  split; [apply differences_partition|].
  split; [apply differences_disjoint_sets|].
  split; [apply difference_shared_disjoint | apply difference_shared_disjoint'].
Qed.

(** ** C3: the two printed sets are disjoint *)

(** C3. No line is in both printed sets. *)
Theorem differences_disjoint (c1 c2 : list N) :
  ∃ onlyA onlyB : gset (list N),
    output c1 c2 = [ [PStr "out1 - out2:"; PSet onlyA];
                     [PStr "out2 - out1:"; PSet onlyB] ]
    ∧ onlyA ∩ onlyB = ∅
    ∧ ∀ l, ¬ (l ∈ onlyA ∧ l ∈ onlyB).
Proof.
  exists (LineSet c1 ∖ LineSet c2), (LineSet c2 ∖ LineSet c1).
  split; [apply output_report|].
  split; [apply differences_disjoint_sets|].
  intros l. unfold_membership. tauto.
Qed.

(** ** C4: repeated lines *)

(** C4. A line that stands [n > 1] times in a file is one member of the
    file's LineSet; a file in which it stands once, the other lines being
    the same, has the same LineSet, and the script prints the same for both,
    whichever of [out1] and [out2] the file is. *)
Theorem duplicate_insensitive (c c' other l : list N) (n : nat) :
  1 < n →
  occurrences l (file_lines c) = n →
  occurrences l (file_lines c') = 1 →
  filter (λ x, x ≠ l) (file_lines c) = filter (λ x, x ≠ l) (file_lines c') →
  occurrences l (elements (LineSet c)) = 1
  ∧ LineSet c = LineSet c'
  ∧ output c other = output c' other
  ∧ output other c = output other c'.
Proof.
  intros Hn Hc Hc' Hrest.
  assert (l ∈ file_lines c) as Hl by (apply occurrences_pos; lia).
  assert (l ∈ file_lines c') as Hl' by (apply occurrences_pos; lia).
  assert (LineSet c = LineSet c') as Heq.
  { apply set_eq. intros x. rewrite !elem_of_LineSet.
    by apply (same_lines_apart_from l). }
  split; [|by rewrite !output_report, Heq].
  apply occurrences_NoDup; [apply NoDup_elements|].
  by rewrite elem_of_elements, elem_of_LineSet.
Qed.

Lemma duplicate_insensitive_witness :
  occurrences (lit "b") (elements (LineSet abbbc)) = 1
  ∧ LineSet abbbc = LineSet abc_nl
  ∧ output abbbc bcd = output abc_nl bcd
  ∧ output bcd abbbc = output bcd abc_nl.
Proof.
  apply (duplicate_insensitive abbbc abc_nl bcd (lit "b") 3);
    [lia | reflexivity..].
Defined.

(** ** C5: swapping the files *)

(** C5. With the contents of [out1] and [out2] exchanged, the set printed
    after [out1 - out2:] is the one that was printed after [out2 - out1:],
    and the other way round. *)
Theorem swap_swaps (c1 c2 : list N) :
  ∃ onlyA onlyB : gset (list N),
    output c1 c2 = [ [PStr "out1 - out2:"; PSet onlyA];
                     [PStr "out2 - out1:"; PSet onlyB] ]
    ∧ output c2 c1 = [ [PStr "out1 - out2:"; PSet onlyB];
                       [PStr "out2 - out1:"; PSet onlyA] ].
Proof.
  exists (LineSet c1 ∖ LineSet c2), (LineSet c2 ∖ LineSet c1).
  split; apply output_report.
Qed.

(** ** C6: a file that cannot be read *)

(** C6. When [out1] or [out2] is missing or cannot be read, the script ends
    with a FileAccessError for whichever of them comes first; it has printed
    nothing, and the world is as it was. *)
Theorem unreadable_file_fails (w : world) :
  readable w "out1" = false ∨ readable w "out2" = false →
  ∃ path,
    main w = (Raise (FileAccessError path), w)
    ∧ path = (if readable w "out1" then "out2" else "out1")
    ∧ stdout (main w).2 = stdout w.
Proof.
  intros H. destruct (readable w "out1") eqn:H1.
  - destruct H as [H|H2]; [done|].
    exists "out2". by rewrite (main_no_out2 w H1 H2).
  - exists "out1". by rewrite (main_no_out1 w H1).
Qed.

(** The fourth scenario of the specification. *)
Lemma unreadable_file_fails_witness :
  ∃ path,
    main missing_out2_world = (Raise (FileAccessError path), missing_out2_world)
    ∧ path = "out2"
    ∧ stdout (main missing_out2_world).2 = [[PStr "earlier"]].
Proof.
  apply (unreadable_file_fails missing_out2_world). right. reflexivity.
Defined.

(** ** C7: a final newline *)

(** C7, as stated, fails: a newline appended to the content [a\n] adds the
    empty line to the lines and to the LineSet, and so does a newline
    appended to the empty content. *)
Lemma final_newline_counterexample :
  file_lines (lit "a" ++ [LF] ++ [LF]) = [lit "a"; []]
  ∧ file_lines (lit "a" ++ [LF]) = [lit "a"]
  ∧ LineSet (lit "a" ++ [LF] ++ [LF]) ≠ LineSet (lit "a" ++ [LF])
  ∧ LineSet ([] ++ [LF]) ≠ LineSet [].
Proof.
  do 2 (split; [reflexivity|]).
  split; intros H; apply (f_equal size) in H; vm_compute in H; discriminate H.
Qed.

(** C7, amended. The content [x\n] has the one line [x].  A newline
    appended to a content that ends inside a line (its last character is no
    terminator, or is a [\r]) changes neither the lines nor the LineSet; a
    newline appended to any other content, the empty one or one that ends
    with a terminator, adds one empty line at the end. *)
Theorem final_newline (c : list N) :
  LineSet (lit "x" ++ [LF]) = {[ lit "x" ]}
  ∧ file_lines (c ++ [LF])
    = (if ends_open c then file_lines c else file_lines c ++ [[]])
  ∧ (ends_open c = true → LineSet (c ++ [LF]) = LineSet c).
Proof.
  assert (file_lines (c ++ [LF])
          = (if ends_open c then file_lines c else file_lines c ++ [[]])) as Hl.
  { rewrite !file_lines_splitlines. unfold ends_open, splitlines.
    destruct (last c) as [x|] eqn:Hlast.
    - destruct (is_linebreak x) eqn:Hx; simpl.
      + destruct (x =? CR)%N eqn:Hcr.
        * apply N.eqb_eq in Hcr as ->.
          apply (splitlines_from_snoc_LF_open c false [] CR); auto.
        * apply N.eqb_neq in Hcr.
          by apply (splitlines_from_snoc_LF_closed c false [] x).
      + apply (splitlines_from_snoc_LF_open c false [] x); auto.
    - apply last_None in Hlast as ->. reflexivity. }
  split; [vm_compute; reflexivity|]. split; [exact Hl|].
  intros Ho. unfold LineSet. by rewrite Hl, Ho.
Qed.

Lemma final_newline_witness :
  file_lines (abc ++ [LF]) = file_lines abc
  ∧ LineSet (abc ++ [LF]) = LineSet abc.
Proof.
  destruct (final_newline abc) as (_ & Hl & Hs).
  split; [exact Hl | apply Hs; reflexivity].
Defined.

(** ** C8: where lines end *)

(** C8, as stated, fails: a form feed ends a line although the content holds
    no newline of any platform. *)
Lemma line_boundaries_counterexample :
  Forall (λ x, x ≠ LF ∧ x ≠ CR) form_feed
  ∧ newline_records form_feed = [form_feed]
  ∧ file_lines form_feed = [lit "a"; lit "b"]
  ∧ file_lines form_feed ≠ newline_records form_feed.
Proof.
  split; [by repeat constructor|].
  do 2 (split; [reflexivity|]). discriminate.
Qed.

(** C8, amended. The lines end at the terminators of [str.splitlines], all
    ten of them and nothing else.  The first line of a content ends at its
    first terminator character, be it [\n], [\r], [\v], [\f], [\x1c],
    [\x1d], [\x1e], [\x85], U+2028 or U+2029, and the lines that follow
    are those of the rest of the content; [\r\n] ends a line as one
    terminator; a content without terminator is one line, or none when it
    is empty.  So no line holds a terminator, and there is at most one line
    more than there are terminators.  For a content in which the only
    terminators are [\n], [\r\n] and [\r], the lines are the
    newline-delimited records of the content read in text mode. *)
Theorem line_boundaries (c : list N) :
  Forall (Forall (λ x, is_linebreak x = false)) (file_lines c)
  ∧ length (file_lines c) ≤ S (length (filter (λ x, is_linebreak x = true) c))
  ∧ (Forall (λ x, is_other_break x = false) c →
     file_lines c = newline_records c)
  ∧ (∀ (l : list N) (t : N) (rest : list N),
       c = l ++ t :: rest →
       Forall (λ x, is_linebreak x = false) l →
       is_linebreak t = true →
       (t = CR → head rest ≠ Some LF) →
       file_lines c = l :: file_lines rest)
  ∧ (∀ l rest : list N,
       c = l ++ CR :: LF :: rest →
       Forall (λ x, is_linebreak x = false) l →
       file_lines c = l :: file_lines rest)
  ∧ (Forall (λ x, is_linebreak x = false) c →
     file_lines c = match c with [] => [] | _ => [c] end)
  ∧ (∀ t : N, is_linebreak t = true
              ↔ t ∈ [LF; CR; VT; FF; FS; GS; RS; NEL; LS; PS]).
Proof.
  split; [|split; [|split; [|split; [|split; [|split]]]]].
  - rewrite file_lines_splitlines. by apply splitlines_from_no_break.
  - rewrite file_lines_splitlines. apply splitlines_from_length.
  - intros Hc. rewrite file_lines_splitlines. by apply splitlines_from_records.
  - intros l t rest -> Hl Ht Hcr.
    rewrite !file_lines_splitlines, (splitlines_first_line l t rest) by done.
    f_equal. destruct (t =? CR)%N eqn:Heq; [|done].
    apply N.eqb_eq in Heq. by apply splitlines_from_after_cr, Hcr.
  - intros l rest -> Hl.
    rewrite !file_lines_splitlines, (splitlines_first_line l CR) by done.
    reflexivity.
  - intros Hc. rewrite file_lines_splitlines. unfold splitlines.
    rewrite <- (app_nil_r c) at 1.
    rewrite (splitlines_from_line c) by done. reflexivity.
  - intros t. unfold is_linebreak.
    rewrite !orb_true_iff, !N.eqb_eq, !elem_of_cons, elem_of_nil. tauto.
Qed.

(** A file with Windows, old Mac and Unix line ends is cut into its
    newline-delimited records; and each of the terminators that are no
    newlines ends a line as well. *)
Lemma line_boundaries_witness :
  file_lines (lit "a" ++ [CR; LF] ++ lit "b" ++ [CR] ++ lit "c" ++ [LF])
  = newline_records (lit "a" ++ [CR; LF] ++ lit "b" ++ [CR] ++ lit "c" ++ [LF])
  ∧ file_lines (lit "a" ++ VT :: lit "b") = lit "a" :: file_lines (lit "b")
  ∧ file_lines (lit "a" ++ FS :: lit "b") = lit "a" :: file_lines (lit "b")
  ∧ file_lines (lit "a" ++ GS :: lit "b") = lit "a" :: file_lines (lit "b")
  ∧ file_lines (lit "a" ++ RS :: lit "b") = lit "a" :: file_lines (lit "b")
  ∧ file_lines (lit "a" ++ NEL :: lit "b") = lit "a" :: file_lines (lit "b")
  ∧ file_lines (lit "a" ++ LS :: lit "b") = lit "a" :: file_lines (lit "b")
  ∧ file_lines (lit "a" ++ PS :: lit "b") = lit "a" :: file_lines (lit "b")
  ∧ file_lines (lit "b") = [lit "b"].
Proof.
  split.
  { apply (line_boundaries
             (lit "a" ++ [CR; LF] ++ lit "b" ++ [CR] ++ lit "c" ++ [LF])).
    by repeat constructor. }
  pose proof (λ t, proj1 (proj2 (proj2 (proj2
                (line_boundaries (lit "a" ++ t :: lit "b")))))) as Hfirst.
  split; [apply (Hfirst VT (lit "a") VT (lit "b"));
          [reflexivity | by repeat constructor | reflexivity | discriminate]|].
  split; [apply (Hfirst FS (lit "a") FS (lit "b"));
          [reflexivity | by repeat constructor | reflexivity | discriminate]|].
  split; [apply (Hfirst GS (lit "a") GS (lit "b"));
          [reflexivity | by repeat constructor | reflexivity | discriminate]|].
  split; [apply (Hfirst RS (lit "a") RS (lit "b"));
          [reflexivity | by repeat constructor | reflexivity | discriminate]|].
  split; [apply (Hfirst NEL (lit "a") NEL (lit "b"));
          [reflexivity | by repeat constructor | reflexivity | discriminate]|].
  split; [apply (Hfirst LS (lit "a") LS (lit "b"));
          [reflexivity | by repeat constructor | reflexivity | discriminate]|].
  split; [apply (Hfirst PS (lit "a") PS (lit "b"));
          [reflexivity | by repeat constructor | reflexivity | discriminate]|].
  apply (proj1 (proj2 (proj2 (proj2 (proj2 (proj2
           (line_boundaries (lit "b")))))))).
  by repeat constructor.
Defined.

(** ** C9: the unused symmetric difference *)

(** C9. The script without the computation of [diff] does the same as the
    script: same result, same files, same standard output, in every world. *)
Theorem diff_is_dead (w : world) : main w = main_without_diff w.
Proof.
  unfold main, main_without_diff, with_open, mbind, M_bind, bind, open.
  destruct (fs w !! "out1") as [f1|]; [|done].
  destruct (read (Handle "out1" f1) w) as [[content1|e1] w1]; [|done].
  unfold mret, M_ret, ret.
  destruct (fs w1 !! "out2") as [f2|]; [|done].
  destruct (read (Handle "out2" f2) w1) as [[content2|e2] w2]; done.
Qed.

(** ** C10: an empty file *)

(** C10. An empty file has the empty LineSet: with [out1] empty the script
    prints the empty set and then all the lines of [out2]; with [out2]
    empty it prints all the lines of [out1] and then the empty set. *)
Theorem empty_file (c : list N) :
  LineSet [] = ∅
  ∧ output [] c = [ [PStr "out1 - out2:"; PSet ∅];
                    [PStr "out2 - out1:"; PSet (LineSet c)] ]
  ∧ output c [] = [ [PStr "out1 - out2:"; PSet (LineSet c)];
                    [PStr "out2 - out1:"; PSet ∅] ].
Proof.
  assert (LineSet [] = ∅) as He by reflexivity.
  split; [exact He|].
  rewrite !output_report, He. unfold report.
  by rewrite empty_difference, difference_empty.
Qed.

(** * Further properties *)

(** ** More on line splitting *)

Section SplitLinesFurther.

Implicit Types (s cur l : list N) (b : bool) (c t : N).

(** The lines, put end to end, are the content without its terminators. *)
Lemma splitlines_from_concat s : ∀ b cur,
  concat (splitlines_from b cur s)
  = cur ++ filter (λ c, is_linebreak c = false) s.
Proof.
  induction s as [|c rest IH]; intros b cur.
  - simpl. destruct cur; [done|]. simpl. by rewrite !app_nil_r.
  - destruct (char_cases b c) as [[-> ->]|[[Hb Hc]|Hc]].
    + rewrite splitlines_from_skip, filter_cons_False by done. apply IH.
    + rewrite (splitlines_from_break b cur c), filter_cons_False
        by (done || congruence).
      simpl. by rewrite IH.
    + rewrite (splitlines_from_char b cur c), filter_cons_True by done.
      by rewrite IH, <- app_assoc.
Qed.

(** A terminator other than [\r] cuts the scan in two independent parts. *)
Lemma splitlines_from_app_break s : ∀ b cur t rest,
  (b = true → cur = []) →
  is_linebreak t = true → t ≠ CR →
  splitlines_from b cur (s ++ t :: rest)
  = splitlines_from b cur (s ++ [t]) ++ splitlines rest.
Proof.
  induction s as [|c0 s IH]; intros b cur t rest Hinv Ht Hcr.
  - cbn [app]. destruct (char_cases b t) as [[-> ->]|[[Hb _]|Hc']];
      [| |congruence].
    + rewrite !splitlines_from_skip, (Hinv eq_refl). reflexivity.
    + rewrite !(splitlines_from_break b cur t) by done.
      apply N.eqb_neq in Hcr. by rewrite Hcr.
  - cbn [app]. destruct (char_cases b c0) as [[-> ->]|[[Hb Hc0]|Hc0]].
    + rewrite !splitlines_from_skip. by apply IH.
    + rewrite !(splitlines_from_break b cur c0) by done.
      simpl. f_equal. by apply IH.
    + rewrite !(splitlines_from_char b cur c0) by done. by apply IH.
Qed.

Lemma splitlines_from_write_lines (term : list N) (ls : list (list N)) :
  is_terminator term = true →
  Forall (Forall (λ c, is_linebreak c = false)) ls →
  ∀ b, (b = true → term = [CR]) →
  splitlines_from b [] (write_lines term ls) = ls.
Proof.
  intros Hterm. induction 1 as [|l ls Hl Hls IH]; intros b Hb; [done|].
  unfold write_lines. cbn [map concat]. fold (write_lines term ls).
  rewrite <- app_assoc, (splitlines_from_line l) by done.
  cbn [app].
  destruct term as [|t1 [|t2 [|]]]; try done; cbn [app].
  - simpl in Hterm.
    assert (b && bool_decide (l = []) && (t1 =? LF)%N = false) as Hskip.
    { destruct b; [|done]. specialize (Hb eq_refl). injection Hb as ->.
      by rewrite andb_false_r. }
    rewrite (splitlines_from_break _ l t1) by done.
    f_equal. apply IH. intros Hcr. apply N.eqb_eq in Hcr. by subst.
  - simpl in Hterm. apply andb_true_iff in Hterm as [H1 H2].
    apply N.eqb_eq in H1 as ->. apply N.eqb_eq in H2 as ->.
    rewrite (splitlines_from_break _ l CR) by (by rewrite ?andb_false_r).
    rewrite splitlines_from_skip. f_equal. by apply IH.
Qed.

(** *** Text mode *)

Lemma translate_newlines_no_CR s : ∀ b,
  Forall (λ c, c ≠ CR) (translate_newlines b s).
Proof.
  induction s as [|c rest IH]; intros b; [constructor|].
  simpl. destruct (b && (c =? LF)%N); [apply IH|].
  destruct (c =? CR)%N eqn:Hcr.
  - constructor; [done|apply IH].
  - apply N.eqb_neq in Hcr. constructor; [done|apply IH].
Qed.

Lemma translate_newlines_id s :
  Forall (λ c, c ≠ CR) s → translate_newlines false s = s.
Proof.
  induction 1 as [|c rest Hc _ IH]; [done|].
  apply N.eqb_neq in Hc. simpl. by rewrite Hc, IH.
Qed.

Lemma translate_newlines_length s : ∀ b,
  length (translate_newlines b s) ≤ length s.
Proof.
  induction s as [|c rest IH]; intros b; [done|].
  simpl. destruct (b && (c =? LF)%N).
  - specialize (IH false). lia.
  - destruct (c =? CR)%N; simpl; [specialize (IH true)|specialize (IH false)];
      lia.
Qed.

End SplitLinesFurther.

(** ** The script in any world *)

Lemma main_cases (w : world) :
  main w =
  match fs w !! "out1" with
  | Some (Text c1) =>
      match fs w !! "out2" with
      | Some (Text c2) =>
          (Ok tt, World (fs w) (stdout w ++ report (LineSet c1) (LineSet c2)))
      | _ => (Raise (FileAccessError "out2"), w)
      end
  | _ => (Raise (FileAccessError "out1"), w)
  end.
Proof.
  destruct (fs w !! "out1") as [[c1|]|] eqn:H1;
    [|by apply main_no_out1; unfold readable; rewrite H1..].
  destruct (fs w !! "out2") as [[c2|]|] eqn:H2;
    [by apply main_ok
    |by apply main_no_out2; unfold readable; rewrite ?H1, ?H2..].
Qed.

(** ** Writing lines and reading them back *)

(** X1. Lines that hold no terminator, written one after the other with any
    one terminator ([\n], [\r\n], [\r], a form feed, ...), are the lines
    the script reads back, in the same order: the style of the line ends
    does not matter. *)
Theorem write_then_read (term : list N) (ls : list (list N)) :
  is_terminator term = true →
  Forall (Forall (λ c, is_linebreak c = false)) ls →
  file_lines (write_lines term ls) = ls
  ∧ LineSet (write_lines term ls) = list_to_set ls.
Proof.
  intros Hterm Hls.
  assert (file_lines (write_lines term ls) = ls) as Hl.
  { rewrite file_lines_splitlines.
    by apply splitlines_from_write_lines. }
  split; [done|]. unfold LineSet, set_. by rewrite Hl.
Qed.

Lemma write_then_read_witness :
  file_lines abc_crlf = [lit "a"; lit "b"; lit "c"]
  ∧ LineSet abc_crlf = list_to_set [lit "a"; lit "b"; lit "c"].
Proof.
  apply (write_then_read [CR; LF] [lit "a"; lit "b"; lit "c"]);
    [reflexivity | by repeat constructor].
Defined.

(** ** Nothing but terminators is lost *)

(** X2. The lines of a file, put end to end, are the characters of the file
    that are no terminators, in their order: splitting drops the
    terminators and nothing else. *)
Theorem lines_keep_characters (c : list N) :
  concat (file_lines c) = filter (λ x, is_linebreak x = false) c.
Proof.
  rewrite file_lines_splitlines. unfold splitlines.
  by rewrite splitlines_from_concat.
Qed.

(** ** Files put one after the other *)

(** X3. When a content is followed, after a terminator other than [\r], by
    a second content, the lines are those of the first part followed by
    those of the second, and the LineSet is the union of the two. *)
Theorem lines_of_concatenation (c1 c2 : list N) (t : N) :
  is_linebreak t = true → t ≠ CR →
  file_lines (c1 ++ t :: c2) = file_lines (c1 ++ [t]) ++ file_lines c2
  ∧ LineSet (c1 ++ t :: c2) = LineSet (c1 ++ [t]) ∪ LineSet c2.
Proof.
  intros Ht Hcr.
  assert (file_lines (c1 ++ t :: c2)
          = file_lines (c1 ++ [t]) ++ file_lines c2) as Hl.
  { rewrite !file_lines_splitlines.
    by apply splitlines_from_app_break. }
  split; [done|]. unfold LineSet, set_. by rewrite Hl, list_to_set_app_L.
Qed.

Lemma lines_of_concatenation_witness :
  file_lines (ab ++ LF :: cd) = file_lines (ab ++ [LF]) ++ file_lines cd
  ∧ LineSet (ab ++ LF :: cd) = LineSet (ab ++ [LF]) ∪ LineSet cd.
Proof.
  apply (lines_of_concatenation ab cd LF); [reflexivity | discriminate].
Defined.

(** ** Text mode *)

(** X4. What [read] hands to [splitlines] holds no [\r]; translating it
    again changes nothing; it is never longer than the content of the file;
    and the translation does not change the lines. *)
Theorem text_mode_read (c : list N) :
  Forall (λ x, x ≠ CR) (universal_newlines c)
  ∧ universal_newlines (universal_newlines c) = universal_newlines c
  ∧ length (universal_newlines c) ≤ length c
  ∧ splitlines (universal_newlines c) = splitlines c.
Proof.
  unfold universal_newlines.
  split; [apply translate_newlines_no_CR|].
  split; [apply translate_newlines_id, translate_newlines_no_CR|].
  split; [apply translate_newlines_length|].
  apply splitlines_from_translate.
Qed.

(** ** What the script leaves alone *)

(** X5. The script never changes a file and never takes back what was
    printed: in every world the files are afterwards what they were, and
    standard output is the old one followed by no line (on failure) or by
    two lines (on success). *)
Theorem main_only_appends (w : world) :
  fs (main w).2 = fs w
  ∧ ∃ out, stdout (main w).2 = stdout w ++ out
           ∧ length out
             = (if readable w "out1" && readable w "out2" then 2 else 0).
Proof.
  rewrite main_cases. unfold readable.
  destruct (fs w !! "out1") as [[c1|]|];
    [|split; [done|]; exists []; by rewrite app_nil_r..].
  destruct (fs w !! "out2") as [[c2|]|];
    [|split; [done|]; exists []; by rewrite app_nil_r..].
  split; [done|]. by eexists.
Qed.

(** X6. The script ends normally exactly when both files can be read. *)
Theorem main_succeeds_iff (w : world) :
  (main w).1 = Ok tt
  ↔ readable w "out1" = true ∧ readable w "out2" = true.
Proof.
  rewrite main_cases. unfold readable.
  destruct (fs w !! "out1") as [[c1|]|]; [|by split; [|intros []]..].
  destruct (fs w !! "out2") as [[c2|]|]; by split; [|intros []].
Qed.

(** X7. The script looks at no file but [out1] and [out2]: in two worlds
    that agree on these two, it ends the same way and prints the same. *)
Theorem main_reads_only_its_files (w w' : world) :
  fs w !! "out1" = fs w' !! "out1" →
  fs w !! "out2" = fs w' !! "out2" →
  (main w).1 = (main w').1
  ∧ ∃ out, stdout (main w).2 = stdout w ++ out
           ∧ stdout (main w').2 = stdout w' ++ out.
Proof.
  intros H1 H2. rewrite !main_cases, <- H1, <- H2.
  destruct (fs w !! "out1") as [[c1|]|];
    [|split; [done|]; exists []; by rewrite !app_nil_r..].
  destruct (fs w !! "out2") as [[c2|]|];
    [|split; [done|]; exists []; by rewrite !app_nil_r..].
  split; [done|]. by eexists.
Qed.

Lemma main_reads_only_its_files_witness :
  (main overlap_world).1
  = (main (World {[ "out1" := Text abc; "out2" := Text bcd ]} [])).1
  ∧ ∃ out, stdout (main overlap_world).2 = [[PStr "earlier"]] ++ out
           ∧ stdout (main (World {[ "out1" := Text abc;
                                    "out2" := Text bcd ]} [])).2
             = [] ++ out.
Proof.
  apply (main_reads_only_its_files overlap_world
           (World {[ "out1" := Text abc; "out2" := Text bcd ]} []));
    reflexivity.
Defined.

(** ** Running the script again *)

(** X8. Run twice in a row on files that can be read, the script prints the
    same two lines twice. *)
Theorem main_twice (w : world) (c1 c2 : list N) :
  fs w !! "out1" = Some (Text c1) →
  fs w !! "out2" = Some (Text c2) →
  (main ;; main) w
  = (Ok tt, World (fs w) (stdout w ++ report (LineSet c1) (LineSet c2)
                                   ++ report (LineSet c1) (LineSet c2))).
Proof.
  intros H1 H2. unfold mbind, M_bind, bind.
  rewrite (main_ok w c1 c2 H1 H2).
  rewrite (main_ok (World (fs w) _) c1 c2) by done. simpl.
  by rewrite <- app_assoc.
Qed.

Lemma main_twice_witness :
  (main ;; main) overlap_world
  = (Ok tt, World (fs overlap_world)
              ([[PStr "earlier"]] ++ report (LineSet abc) (LineSet bcd)
                                  ++ report (LineSet abc) (LineSet bcd))).
Proof.
  apply (main_twice overlap_world abc bcd); reflexivity.
Defined.

(** ** The order of the lines *)

(** X9. The order of the lines in a file does not matter: a file with the
    same lines in another order has the same LineSet, and the script prints
    the same for it, whichever of [out1] and [out2] it is. *)
Theorem order_insensitive (c c' other : list N) :
  file_lines c ≡ₚ file_lines c' →
  LineSet c = LineSet c'
  ∧ output c other = output c' other
  ∧ output other c = output other c'.
Proof.
  intros Hp.
  assert (LineSet c = LineSet c') as Heq.
  { apply set_eq. intros x. rewrite !elem_of_LineSet. by rewrite Hp. }
  by rewrite !output_report, Heq.
Qed.

Lemma order_insensitive_witness :
  LineSet abc_nl = LineSet cab_nl
  ∧ output abc_nl bcd = output cab_nl bcd
  ∧ output bcd abc_nl = output bcd cab_nl.
Proof.
  apply (order_insensitive abc_nl cab_nl bcd).
  change (file_lines abc_nl) with ([lit "a"; lit "b"] ++ [lit "c"]).
  change (file_lines cab_nl) with ([lit "c"] ++ [lit "a"; lit "b"]).
  apply Permutation_app_comm.
Defined.

(** ** Nothing to report *)

(** X10. Both printed sets are empty exactly when the two files have the
    same LineSet. *)
Theorem nothing_to_report_iff (c1 c2 : list N) :
  output c1 c2 = [ [PStr "out1 - out2:"; PSet ∅];
                   [PStr "out2 - out1:"; PSet ∅] ]
  ↔ LineSet c1 = LineSet c2.
Proof.
  rewrite output_report. unfold report. split.
  - intros H. injection H as HA HB.
    apply set_eq. intros x.
    assert (x ∉ LineSet c1 ∖ LineSet c2) as H1
      by (rewrite HA; apply not_elem_of_empty).
    assert (x ∉ LineSet c2 ∖ LineSet c1) as H2
      by (rewrite HB; apply not_elem_of_empty).
    rewrite elem_of_difference in H1, H2.
    destruct (decide (x ∈ LineSet c1)), (decide (x ∈ LineSet c2)); tauto.
  - intros ->. by rewrite difference_diag_L.
Qed.
